(** * libparam: the [Param<T>] template over an EEPROM, embedded in Rocq

    Source: [src/param/param.hpp].  The class keeps a record [data] of a
    plain type [T] in RAM and persists it, followed by one CRC byte, at the
    EEPROM address [addr].

    Conventions of the embedding:
    - a byte ([uint8_t] cell of the EEPROM, one byte of the object
      representation of [T]) is a [byte] (Stdlib's 256-constructor type);
      conversions to and from C's [int] go through [byte.unsigned] and
      [byte.of_Z] (the latter reduces modulo [2^8]);
    - the record [data] of type [T] is its object representation, a list of
      [sizeof(T)] bytes; [sizeofT] is a parameter of the development;
    - [size_t] and [int] address arithmetic is done in [Z]: objects and
      EEPROM addresses are far below the range of either type;
    - each member function is a function from the state before the call (the
      EEPROM and the instance) to its return value and the state after. *)

From Stdlib Require Import ZArith List Lia Bool.
From coqutil Require Import Byte.
Import ListNotations.
Local Open Scope Z_scope.

(** ** Integer conversions *)

(** Conversion of an integer to [uint8_t]. *)
Definition uint8_t (z : Z) : Z := z mod 2 ^ 8.

(** [~x] on a [uint8_t] operand [x]: the operand is promoted to [int], the
    complement is taken there, and the (negative) result is converted back to
    [uint8_t] when it is passed as the [uint8_t val] argument. *)
Definition bitnot_u8 (x : byte) : byte := byte.of_Z (Z.lnot (byte.unsigned x)).

(** [x == y] on two [uint8_t] operands, compared after promotion to [int]. *)
Definition eq_u8 (x y : byte) : bool := byte.unsigned x =? byte.unsigned y.

(** ** The storage medium *)

Module EEPROM.

(** Modelled from the spec: the storage medium of [<EEPROM.h>], which is
    not part of the repository.  It is byte-addressable, holds arbitrary
    content before the first write, retains what is written, and is not
    bounds-checked by the component: a total map from addresses to
    bytes. *)
Definition t : Type := Z -> byte.

(** Modelled from the spec: [read_byte(address) -> byte]. *)
Definition read (m : t) (idx : Z) : byte := m idx.

(** Modelled from the spec: [write_byte(address, byte)]. *)
Definition write (m : t) (idx : Z) (val : byte) : t :=
  fun a => if a =? idx then val else m a.

(** Modelled from the spec: [get(address, length) -> bytes], the bulk read
    of [len] consecutive bytes starting at [idx]. *)
Fixpoint get (m : t) (idx : Z) (len : nat) : list byte :=
  match len with
  | O => []
  | S len' => read m idx :: get m (idx + 1) len'
  end.

(** Modelled from the spec: [put(address, bytes)], the bulk write of the
    given bytes to consecutive addresses starting at [idx]. *)
Fixpoint put (m : t) (idx : Z) (bytes : list byte) : t :=
  match bytes with
  | [] => m
  | b :: bytes' => put (write m idx b) (idx + 1) bytes'
  end.

End EEPROM.

(** ** The class [Param<T>] *)

(** The data members of an instance. *)
Record Param : Type := mkParam {
  data : list byte;   (* T data: the object representation of the record *)
  addr : Z            (* uint8_t addr *)
}.

(** What a member function can see and change: the global [EEPROM] object and
    the instance it is called on. *)
Record state : Type := mkState {
  eeprom : EEPROM.t;
  this : Param
}.

Definition set_data (s : state) (d : list byte) : state :=
  mkState (eeprom s) (mkParam d (addr (this s))).

Definition set_eeprom (s : state) (m : EEPROM.t) : state :=
  mkState m (this s).

Section ParamT.

(** [sizeof(T)] of the template argument. *)
Variable sizeofT : nat.

(** Modelled from the spec: [crc8(bytes) -> byte] of [<generic/crc8.hpp>],
    which is not part of the repository: a deterministic 8-bit checksum
    with no external state.  [crc_calc d] stands for [crc.calc(&d, len)] on
    a freshly constructed [crc8] object, [d] being the [len] bytes read. *)
Variable crc_calc : list byte -> byte.

(** [void clear(void)]: [memset(&data, 0, sizeof(T))]. *)
Definition clear (s : state) : unit * state :=
  (tt, set_data s (repeat Byte.x00 sizeofT)).

(** [Param(uint8_t _addr = 0) : addr(_addr) { clear(); }].  The argument is
    converted to the parameter type [uint8_t]; [data] is indeterminate
    until [clear] has run. *)
Definition Param_ctor (_addr : Z) (m : EEPROM.t) : state :=
  snd (clear (mkState m (mkParam [] (uint8_t _addr)))).

(** The constructor called without an argument. *)
Definition Param_default (m : EEPROM.t) : state := Param_ctor 0 m.

(** [bool read(void)]. *)
Definition read (s : state) : bool * state :=
  let s1 := set_data s (EEPROM.get (eeprom s) (addr (this s)) sizeofT) in
  if eq_u8 (crc_calc (data (this s1)))
           (EEPROM.read (eeprom s1) (addr (this s1) + Z.of_nat sizeofT))
  then (true, s1)
  else (false, s1).

(** [void write(void)]. *)
Definition write (s : state) : unit * state :=
  let s1 := set_eeprom s (EEPROM.put (eeprom s) (addr (this s)) (data (this s))) in
  (tt, set_eeprom s1
         (EEPROM.write (eeprom s1) (addr (this s1) + Z.of_nat sizeofT)
                       (crc_calc (data (this s1))))).

(** [void discard(void)]. *)
Definition discard (s : state) : unit * state :=
  (tt, set_eeprom s
         (EEPROM.write (eeprom s) (addr (this s) + Z.of_nat sizeofT)
            (bitnot_u8 (EEPROM.read (eeprom s) (addr (this s) + Z.of_nat sizeofT))))).

(** [size_t size(void)]: [sizeof(T) + sizeof(uint8_t)]. *)
Definition size (s : state) : Z * state :=
  (Z.of_nat sizeofT + 1, s).

(** The record held by an instance is a [T]: [sizeof(T)] bytes. *)
Definition is_T (v : list byte) : Prop := length v = sizeofT.

End ParamT.

(** ** Out-of-band corruption of the medium *)

(** Bit [k] of a byte inverted. *)
Definition flip_bit (b : byte) (k : Z) : byte :=
  byte.of_Z (Z.lxor (byte.unsigned b) (Z.shiftl 1 k)).

(** Bit [k] of the EEPROM cell at address [a] inverted, behind the back of
    every [Param] instance. *)
Definition corrupt (m : EEPROM.t) (a : Z) (k : Z) : EEPROM.t :=
  EEPROM.write m a (flip_bit (EEPROM.read m a) k).

(** Bit [k] of byte [i] of a payload inverted. *)
Fixpoint flip_at (p : list byte) (i : nat) (k : Z) : list byte :=
  match p, i with
  | [], _ => []
  | b :: p', O => flip_bit b k :: p'
  | b :: p', S i' => b :: flip_at p' i' k
  end.

(** Modelled from the spec: the property of [crc8], whose code is not part of
    the repository, that the specification appeals to ("CRC-8 detects all
    1-bit errors"): the checksum of a payload changes whenever exactly one
    bit of the payload is inverted. *)
Definition detects_single_bit_errors (crc : list byte -> byte) : Prop :=
  forall (p : list byte) (i : nat) (k : Z),
    (i < length p)%nat -> 0 <= k < 8 -> crc (flip_at p i k) <> crc p.

(** ** A checksum to run the model with *)

Module CRC8.

(** A textbook CRC-8: generator [x^8 + x^2 + x + 1] (0x07), initial value
    0xFF, most significant bit first, no final inversion.  It is one
    function that meets the interface of [crc_calc]; it is used where a
    statement needs a concrete checksum to be evaluated. *)

(** One shift of the 8-bit register. *)
Definition step (c : Z) : Z :=
  if Z.testbit c 7
  then Z.lxor (Z.land (Z.shiftl c 1) 255) 7
  else Z.land (Z.shiftl c 1) 255.

(** Eight shifts. *)
Definition mix (x : byte) : byte :=
  byte.of_Z (Nat.iter 8 step (byte.unsigned x)).

(** One input byte absorbed into the register. *)
Definition update (c b : byte) : byte := mix (byte.xor c b).

Definition calc (bytes : list byte) : byte :=
  fold_left update bytes Byte.xff.

(** The 256 bytes, in increasing order. *)
Definition all_bytes : list byte :=
  map (fun n => byte.of_Z (Z.of_nat n)) (seq 0 256).

(** The inverse of [mix], by search. *)
Definition unmix (y : byte) : byte :=
  match find (fun x => eq_u8 (mix x) y) all_bytes with
  | Some x => x
  | None => Byte.x00
  end.

End CRC8.

(** ** The record type of the documentation example *)

(** [typedef struct { uint32_t a[4]; uint8_t b; } UserData_t;] is the record
    type of the usage example in the class comment.  Its [sizeof] is fixed by
    the target's data layout, not by the class; the two layouts below are
    those of the Arduino targets: every type aligned to 1 on 8-bit AVR, and
    [uint32_t] aligned to 4 on the 32-bit cores. *)

Inductive target : Type := AVR8 | ARM32.

Definition max_align (tg : target) : nat :=
  match tg with AVR8 => 1 | ARM32 => 4 end%nat.

(** A member [elem name[count]] with elements of [elem_size] bytes. *)
Record member : Type := mkMember { elem_size : nat; elem_count : nat }.

Definition UserData_t : list member :=
  [ mkMember 4 4   (* uint32_t a[4] *)
  ; mkMember 1 1   (* uint8_t b *) ].

Definition align_up (off a : nat) : nat := ((off + a - 1) / a * a)%nat.

Definition member_align (tg : target) (f : member) : nat :=
  Nat.min (elem_size f) (max_align tg).

(** Offset of the first byte after the last member. *)
Fixpoint members_end (tg : target) (off : nat) (fs : list member) : nat :=
  match fs with
  | [] => off
  | f :: fs' =>
      members_end tg
        (align_up off (member_align tg f) + elem_size f * elem_count f)%nat fs'
  end.

Definition struct_align (tg : target) (fs : list member) : nat :=
  fold_right (fun f a => Nat.max (member_align tg f) a) 1%nat fs.

(** [sizeof] of a struct: members in declaration order, each at the next
    offset that is a multiple of its alignment, the whole padded to a
    multiple of the largest member alignment. *)
Definition sizeof_struct (tg : target) (fs : list member) : nat :=
  align_up (members_end tg 0 fs) (struct_align tg fs).

(** The layout scenario of the specification, as it is worded: a fresh
    instance for [UserData_t] at address 0 is written; 17 bytes are stored,
    16 zero payload bytes and, at offset 16, the checksum of 16 zero
    bytes. *)
Definition scenario_layout_as_stated
    (tg : target) (crc : list byte -> byte) : Prop :=
  forall m : EEPROM.t,
    let n := sizeof_struct tg UserData_t in
    let m' := eeprom (snd (write n crc (Param_ctor n 0 m))) in
    (forall a, ~ (0 <= a < 17) -> m' a = m a) /\
    (forall a, 0 <= a < 16 -> m' a = Byte.x00) /\
    m' 16 = crc (repeat Byte.x00 16).

(** ** Sequences of calls on one instance *)

(** What a caller can do with an instance: call a member function, or assign
    a value of type [T] to the public member [data]. *)
Inductive call : Type :=
| Clear
| Read
| Write
| Discard
| Size
| Assign (v : list byte).

(** An assigned value is a [T]. *)
Definition call_ok (sizeofT : nat) (c : call) : Prop :=
  match c with
  | Assign v => is_T sizeofT v
  | _ => True
  end.

Definition is_discard (c : call) : bool :=
  match c with Discard => true | _ => false end.

(** The state after one call, the return value dropped. *)
Definition do_call (sizeofT : nat) (crc : list byte -> byte)
    (s : state) (c : call) : state :=
  match c with
  | Clear => snd (clear sizeofT s)
  | Read => snd (read sizeofT crc s)
  | Write => snd (write sizeofT crc s)
  | Discard => snd (discard sizeofT s)
  | Size => snd (size sizeofT s)
  | Assign v => set_data s v
  end.

(** The state after a sequence of calls, first call first. *)
Definition run (sizeofT : nat) (crc : list byte -> byte)
    (cs : list call) (s : state) : state :=
  fold_left (do_call sizeofT crc) cs s.

(** ** The demo of the README *)

(** Offset of member number [i] of a struct whose members start at [off]. *)
Fixpoint member_offset (tg : target) (off : nat) (fs : list member) (i : nat)
    : nat :=
  match fs with
  | [] => off
  | f :: fs' =>
      let o := align_up off (member_align tg f) in
      match i with
      | O => o
      | S i' => member_offset tg (o + elem_size f * elem_count f)%nat fs' i'
      end
  end.

(** [offsetof(UserData_t, b)]. *)
Definition offsetof_b (tg : target) : nat := member_offset tg 0 UserData_t 1.

(** Byte [i] of an object representation replaced. *)
Fixpoint store_byte (d : list byte) (i : nat) (b : byte) : list byte :=
  match d, i with
  | [], _ => []
  | _ :: d', O => b :: d'
  | x :: d', S i' => x :: store_byte d' i' b
  end.

(** What [setup()] sends to [Serial], one constructor per statement that
    prints: [println()], the two [printf] calls without argument, and
    [printf("Value of b is %d\n", param.data.b)] with the printed number. *)
Inductive serial_out : Type :=
| Empty_line
| Parameter_reset
| Parameter_loaded
| Value_of_b (v : Z).

(** [void setup()] of the README, on the global [param] of type
    [Param<UserData_t>].  [Serial.begin] and the wait [while (!Serial);] print
    nothing and are taken to return. *)
Definition setup (tg : target) (crc : list byte -> byte) (s : state)
    : list serial_out * state :=
  let n := sizeof_struct tg UserData_t in
  let r := read n crc s in
  let r1 :=
    if negb (fst r)                        (* param.read() != true *)
    then ([Empty_line; Parameter_reset],
          snd (write n crc (snd (clear n (snd r)))))
    else ([Empty_line; Parameter_loaded], snd r) in
  let s1 := snd r1 in
  let b := nth (offsetof_b tg) (data (this s1)) Byte.x00 in
  let s2 := set_data s1                    (* param.data.b++ *)
              (store_byte (data (this s1)) (offsetof_b tg)
                          (byte.of_Z (byte.unsigned b + 1))) in
  (fst r1 ++ [Value_of_b (byte.unsigned b)], snd (write n crc s2)).

(** One power cycle: the global [param] is constructed without argument, then
    [setup()] runs; the serial output and the EEPROM survive. *)
Definition boot (tg : target) (crc : list byte -> byte) (m : EEPROM.t)
    : list serial_out * EEPROM.t :=
  let r := setup tg crc (Param_default (sizeof_struct tg UserData_t) m) in
  (fst r, eeprom (snd r)).

(** The EEPROM after [k] power cycles. *)
Fixpoint boots (tg : target) (crc : list byte -> byte) (k : nat)
    (m : EEPROM.t) : EEPROM.t :=
  match k with
  | O => m
  | S k' => snd (boot tg crc (boots tg crc k' m))
  end.

(** A medium to evaluate the model on: every cell reads 0xFF, the content of
    an EEPROM that has never been programmed. *)
Definition erased : EEPROM.t := fun _ => Byte.xff.

(** ** Sanity checks of the model on concrete inputs *)

Example sizeof_UserData_t_AVR8 : sizeof_struct AVR8 UserData_t = 17%nat.
Proof. reflexivity. Qed.

Example sizeof_UserData_t_ARM32 : sizeof_struct ARM32 UserData_t = 20%nat.
Proof. reflexivity. Qed.

Example uint8_t_300 : uint8_t 300 = 44.
Proof. reflexivity. Qed.

Example bitnot_u8_5a : bitnot_u8 Byte.x5a = Byte.xa5.
Proof. vm_compute. reflexivity. Qed.

Example crc8_check_string :
  CRC8.calc (map byte.of_Z [49; 50; 51; 52; 53; 54; 55; 56; 57]) = Byte.xfb.
Proof. vm_compute. reflexivity. Qed.

(** The scenario of the class comment with 17-byte records: the medium after
    a [write()] of the zeroed record, offsets 0 to 18. *)
Example write_zero_record_AVR8 :
  EEPROM.get (eeprom (snd (write 17 CRC8.calc (Param_default 17 erased)))) 0 19
  = repeat Byte.x00 17 ++ [Byte.xe1; Byte.xff].
Proof. vm_compute. reflexivity. Qed.

(** A second, freshly constructed instance at the same address reads the
    record back; on a medium that was never written the check fails and the
    working copy holds the 0xFF bytes of the medium all the same. *)
Example read_back_AVR8 :
  let m := eeprom (snd (write 17 CRC8.calc (Param_default 17 erased))) in
  let r := read 17 CRC8.calc (Param_default 17 m) in
  fst r = true /\ data (this (snd r)) = repeat Byte.x00 17.
Proof. vm_compute. split; reflexivity. Qed.

Example read_unwritten_AVR8 :
  let r := read 17 CRC8.calc (Param_default 17 erased) in
  fst r = false /\ data (this (snd r)) = repeat Byte.xff 17.
Proof. vm_compute. split; reflexivity. Qed.

Example discard_then_read_AVR8 :
  fst (read 17 CRC8.calc
         (snd (discard 17 (snd (write 17 CRC8.calc (Param_default 17 erased))))))
  = false.
Proof. vm_compute. reflexivity. Qed.

(** Offset 16 holds the member [b], not a checksum. *)
Example offset_16_is_payload :
  eeprom (snd (write 17 CRC8.calc (Param_default 17 erased))) 16 = Byte.x00 /\
  CRC8.calc (repeat Byte.x00 16) = Byte.xf9.
Proof. vm_compute. split; reflexivity. Qed.

Example offsetof_b_16 : offsetof_b AVR8 = 16%nat /\ offsetof_b ARM32 = 16%nat.
Proof. split; reflexivity. Qed.

(** Three power cycles on a blank EEPROM: a reset, then two loads, with [b]
    counting 0, 1, 2. *)
Example three_boots_AVR8 :
  fst (boot AVR8 CRC8.calc erased)
  = [Empty_line; Parameter_reset; Value_of_b 0] /\
  fst (boot AVR8 CRC8.calc (boots AVR8 CRC8.calc 1 erased))
  = [Empty_line; Parameter_loaded; Value_of_b 1] /\
  fst (boot AVR8 CRC8.calc (boots AVR8 CRC8.calc 2 erased))
  = [Empty_line; Parameter_loaded; Value_of_b 2].
Proof. vm_compute. repeat split. Qed.

(** ** Facts about bytes *)

Lemma eq_u8_true_iff (x y : byte) : eq_u8 x y = true <-> x = y.
Proof.
  unfold eq_u8. rewrite Z.eqb_eq. split.
  - apply byte.unsigned_inj.
  - intros ->. reflexivity.
Qed.

Lemma eq_u8_refl (x : byte) : eq_u8 x x = true.
Proof. apply eq_u8_true_iff. reflexivity. Qed.

Lemma eq_u8_false_iff (x y : byte) : eq_u8 x y = false <-> x <> y.
Proof.
  rewrite <- eq_u8_true_iff. destruct (eq_u8 x y); split; congruence.
Qed.

Lemma bitnot_u8_unsigned (x : byte) :
  byte.unsigned (bitnot_u8 x) = 255 - byte.unsigned x.
Proof.
  unfold bitnot_u8. rewrite byte.unsigned_of_Z. unfold byte.wrap.
  pose proof (byte.unsigned_range x) as R.
  change (2 ^ 8) with 256 in *.
  replace (Z.lnot (byte.unsigned x)) with (255 - byte.unsigned x + (-1) * 256)
    by (unfold Z.lnot; lia).
  rewrite Z.mod_add by lia. apply Z.mod_small. lia.
Qed.

Lemma bitnot_u8_neq (x : byte) : bitnot_u8 x <> x.
Proof.
  intros E. apply (f_equal byte.unsigned) in E.
  rewrite bitnot_u8_unsigned in E. lia.
Qed.

Lemma bitnot_u8_involutive (x : byte) : bitnot_u8 (bitnot_u8 x) = x.
Proof.
  apply byte.unsigned_inj. rewrite !bitnot_u8_unsigned. lia.
Qed.

Lemma bitnot_u8_testbit (x : byte) (k : Z) :
  0 <= k < 8 ->
  Z.testbit (byte.unsigned (bitnot_u8 x)) k = negb (Z.testbit (byte.unsigned x) k).
Proof.
  intros Hk. unfold bitnot_u8. rewrite byte.unsigned_of_Z. unfold byte.wrap.
  rewrite Z.mod_pow2_bits_low by lia.
  apply Z.lnot_spec. lia.
Qed.

(** ** Facts about the medium *)

Lemma EEPROM_write_same (m : EEPROM.t) (a : Z) (v : byte) :
  EEPROM.write m a v a = v.
Proof. unfold EEPROM.write. rewrite Z.eqb_refl. reflexivity. Qed.

Lemma EEPROM_write_other (m : EEPROM.t) (a a' : Z) (v : byte) :
  a' <> a -> EEPROM.write m a v a' = m a'.
Proof.
  intros H. unfold EEPROM.write.
  destruct (Z.eqb_spec a' a); [contradiction | reflexivity].
Qed.

Lemma EEPROM_get_length (m : EEPROM.t) (len : nat) :
  forall idx, length (EEPROM.get m idx len) = len.
Proof.
  induction len as [|len IH]; intros idx; simpl; [reflexivity|].
  rewrite IH. reflexivity.
Qed.

Lemma EEPROM_get_ext (m m' : EEPROM.t) (len : nat) :
  forall idx,
    (forall a, idx <= a < idx + Z.of_nat len -> m' a = m a) ->
    EEPROM.get m' idx len = EEPROM.get m idx len.
Proof.
  induction len as [|len IH]; intros idx H; simpl; [reflexivity|].
  unfold EEPROM.read. rewrite H by lia. f_equal.
  apply IH. intros a Ha. apply H. lia.
Qed.

Lemma EEPROM_get_nth (m : EEPROM.t) (len : nat) :
  forall idx (i : nat),
    (i < len)%nat -> nth i (EEPROM.get m idx len) Byte.x00 = m (idx + Z.of_nat i).
Proof.
  induction len as [|len IH]; intros idx i Hi; [lia|].
  destruct i as [|i]; simpl.
  - unfold EEPROM.read. f_equal. lia.
  - rewrite IH by lia. f_equal. lia.
Qed.

Lemma EEPROM_put_outside (bytes : list byte) :
  forall (m : EEPROM.t) idx a,
    a < idx \/ idx + Z.of_nat (length bytes) <= a ->
    EEPROM.put m idx bytes a = m a.
Proof.
  induction bytes as [|b bytes IH]; intros m idx a H; simpl; [reflexivity|].
  simpl length in H. rewrite IH by lia.
  apply EEPROM_write_other. lia.
Qed.

Lemma EEPROM_put_inside (bytes : list byte) :
  forall (m : EEPROM.t) idx (i : nat),
    (i < length bytes)%nat ->
    EEPROM.put m idx bytes (idx + Z.of_nat i) = nth i bytes Byte.x00.
Proof.
  induction bytes as [|b bytes IH]; intros m idx i Hi; simpl in *; [lia|].
  destruct i as [|i].
  - rewrite EEPROM_put_outside by lia.
    replace (idx + Z.of_nat 0) with idx by lia. apply EEPROM_write_same.
  - replace (idx + Z.of_nat (S i)) with (idx + 1 + Z.of_nat i) by lia.
    apply IH. lia.
Qed.

Lemma EEPROM_get_put (bytes : list byte) :
  forall (m : EEPROM.t) idx,
    EEPROM.get (EEPROM.put m idx bytes) idx (length bytes) = bytes.
Proof.
  induction bytes as [|b bytes IH]; intros m idx; simpl; [reflexivity|].
  f_equal.
  - unfold EEPROM.read. rewrite EEPROM_put_outside by lia.
    apply EEPROM_write_same.
  - apply IH.
Qed.

Lemma EEPROM_get_write_outside (m : EEPROM.t) (len : nat) idx a v :
  a < idx \/ idx + Z.of_nat len <= a ->
  EEPROM.get (EEPROM.write m a v) idx len = EEPROM.get m idx len.
Proof.
  intros H. apply EEPROM_get_ext. intros a' Ha'.
  apply EEPROM_write_other. lia.
Qed.

Lemma EEPROM_get_corrupt (m : EEPROM.t) (len : nat) (k : Z) :
  forall idx (i : nat),
    (i < len)%nat ->
    EEPROM.get (corrupt m (idx + Z.of_nat i) k) idx len
    = flip_at (EEPROM.get m idx len) i k.
Proof.
  induction len as [|len IH]; intros idx i Hi; [lia|].
  destruct i as [|i].
  - replace (idx + Z.of_nat 0) with idx by lia. simpl.
    unfold corrupt. f_equal.
    + unfold EEPROM.read at 1. apply EEPROM_write_same.
    + apply EEPROM_get_write_outside. lia.
  - replace (idx + Z.of_nat (S i)) with (idx + 1 + Z.of_nat i) by lia.
    simpl. f_equal.
    + unfold corrupt, EEPROM.read at 1. apply EEPROM_write_other. lia.
    + apply IH. lia.
Qed.

(** ** The sample CRC-8 detects every single-bit error *)

Lemma CRC8_unmix_mix (x : byte) : CRC8.unmix (CRC8.mix x) = x.
Proof. destruct x; vm_compute; reflexivity. Qed.

Lemma CRC8_mix_inj (x y : byte) : CRC8.mix x = CRC8.mix y -> x = y.
Proof.
  intros E. rewrite <- (CRC8_unmix_mix x), <- (CRC8_unmix_mix y), E.
  reflexivity.
Qed.

Lemma lxor_u8_range (a b : Z) :
  0 <= a < 2 ^ 8 -> 0 <= b < 2 ^ 8 -> 0 <= Z.lxor a b < 2 ^ 8.
Proof.
  intros Ha Hb.
  assert (H0 : 0 <= Z.lxor a b) by (apply Z.lxor_nonneg; lia).
  split; [exact H0|].
  destruct (Z.eq_dec (Z.lxor a b) 0) as [E|NE]; [rewrite E; reflexivity|].
  apply Z.log2_lt_pow2; [lia|].
  pose proof (Z.log2_lxor a b ltac:(lia) ltac:(lia)) as L.
  assert (La : Z.log2 a < 8).
  { destruct (Z.eq_dec a 0) as [->|]; [reflexivity|].
    apply Z.log2_lt_pow2; lia. }
  assert (Lb : Z.log2 b < 8).
  { destruct (Z.eq_dec b 0) as [->|]; [reflexivity|].
    apply Z.log2_lt_pow2; lia. }
  lia.
Qed.

Lemma byte_xor_unsigned (a b : byte) :
  byte.unsigned (byte.xor a b) = Z.lxor (byte.unsigned a) (byte.unsigned b).
Proof.
  unfold byte.xor. rewrite byte.unsigned_of_Z. unfold byte.wrap.
  apply Z.mod_small.
  apply lxor_u8_range; apply byte.unsigned_range.
Qed.

Lemma byte_xor_inj_r (c a b : byte) : byte.xor c a = byte.xor c b -> a = b.
Proof.
  intros E. apply (f_equal byte.unsigned) in E.
  rewrite !byte_xor_unsigned in E.
  apply byte.unsigned_inj.
  apply (f_equal (Z.lxor (byte.unsigned c))) in E.
  rewrite <- !Z.lxor_assoc, Z.lxor_nilpotent, !Z.lxor_0_l in E. exact E.
Qed.

Lemma byte_xor_inj_l (b c d : byte) : byte.xor c b = byte.xor d b -> c = d.
Proof.
  intros E. apply (f_equal byte.unsigned) in E.
  rewrite !byte_xor_unsigned in E.
  apply byte.unsigned_inj.
  apply (f_equal (fun z => Z.lxor z (byte.unsigned b))) in E.
  rewrite !Z.lxor_assoc, Z.lxor_nilpotent, !Z.lxor_0_r in E. exact E.
Qed.

Lemma flip_bit_neq (b : byte) (k : Z) : 0 <= k < 8 -> flip_bit b k <> b.
Proof.
  intros Hk E. apply (f_equal byte.unsigned) in E.
  unfold flip_bit in E. rewrite byte.unsigned_of_Z in E. unfold byte.wrap in E.
  apply (f_equal (fun z => Z.testbit z k)) in E.
  rewrite Z.mod_pow2_bits_low, Z.lxor_spec, Z.shiftl_spec in E by lia.
  replace (k - k) with 0 in E by lia. simpl in E.
  destruct (Z.testbit (byte.unsigned b) k); discriminate.
Qed.

Lemma CRC8_update_inj_state (b c d : byte) :
  CRC8.update c b = CRC8.update d b -> c = d.
Proof.
  unfold CRC8.update. intros E.
  apply CRC8_mix_inj in E. eapply byte_xor_inj_l; eassumption.
Qed.

Lemma CRC8_update_inj_input (c a b : byte) :
  CRC8.update c a = CRC8.update c b -> a = b.
Proof.
  unfold CRC8.update. intros E.
  apply CRC8_mix_inj in E. eapply byte_xor_inj_r; eassumption.
Qed.

(** A checksum that folds an update function over the payload detects a
    single-bit error as soon as the update function is injective in the
    register and in the input byte. *)
Section FoldedChecksum.

Variable f : byte -> byte -> byte.
Hypothesis f_inj_state : forall b c d, f c b = f d b -> c = d.
Hypothesis f_inj_input : forall c a b, f c a = f c b -> a = b.

Lemma fold_inj_state (p : list byte) :
  forall c d, fold_left f p c = fold_left f p d -> c = d.
Proof.
  induction p as [|b p IH]; intros c d E; simpl in E; [exact E|].
  apply IH in E. eapply f_inj_state; eassumption.
Qed.

Lemma fold_flip (p : list byte) :
  forall (c : byte) (i : nat) (k : Z),
    (i < length p)%nat -> 0 <= k < 8 ->
    fold_left f (flip_at p i k) c <> fold_left f p c.
Proof.
  induction p as [|b p IH]; intros c i k Hi Hk; simpl in Hi; [lia|].
  destruct i as [|i]; simpl.
  - intros E. apply fold_inj_state in E.
    apply f_inj_input in E.
    revert E. apply flip_bit_neq. exact Hk.
  - apply IH; lia.
Qed.

End FoldedChecksum.

Lemma CRC8_detects_single_bit_errors : detects_single_bit_errors CRC8.calc.
Proof.
  intros p i k Hi Hk. unfold CRC8.calc.
  apply (fold_flip CRC8.update CRC8_update_inj_state CRC8_update_inj_input);
    assumption.
Qed.

(** ** The member functions, one at a time *)

Create HintDb param_ops.
#[local] Hint Unfold clear read write discard size is_T Param_ctor Param_default
  : param_ops.

Section ParamT_facts.

Variable sizeofT : nat.
Variable crc_calc : list byte -> byte.

Local Abbreviation clear := (clear sizeofT).
Local Abbreviation read := (read sizeofT crc_calc).
Local Abbreviation write := (write sizeofT crc_calc).
Local Abbreviation discard := (discard sizeofT).
Local Abbreviation size := (size sizeofT).
Local Abbreviation is_T := (is_T sizeofT).
Local Abbreviation crc_addr s := (addr (this s) + Z.of_nat sizeofT).

Lemma read_unfold (s : state) :
  read s =
  (eq_u8 (crc_calc (EEPROM.get (eeprom s) (addr (this s)) sizeofT))
         (eeprom s (crc_addr s)),
   set_data s (EEPROM.get (eeprom s) (addr (this s)) sizeofT)).
Proof.
  autounfold with param_ops. unfold EEPROM.read. cbn [set_data data this eeprom addr].
  destruct (eq_u8 _ _); reflexivity.
Qed.

(** [read] depends on the instance only through its address. *)
Lemma read_congr (s s' : state) :
  (forall a, eeprom s' a = eeprom s a) ->
  addr (this s') = addr (this s) ->
  fst (read s') = fst (read s) /\
  data (this (snd (read s'))) = data (this (snd (read s))).
Proof.
  intros Hm Ha. rewrite !read_unfold. cbn [fst snd set_data data this].
  rewrite Ha, Hm.
  rewrite (EEPROM_get_ext (eeprom s) (eeprom s')) by (intros; apply Hm).
  split; reflexivity.
Qed.

Lemma write_this (s : state) : this (snd (write s)) = this s.
Proof. reflexivity. Qed.

Lemma write_crc_byte (s : state) :
  eeprom (snd (write s)) (crc_addr s) = crc_calc (data (this s)).
Proof.
  autounfold with param_ops. cbn [snd set_eeprom eeprom this].
  apply EEPROM_write_same.
Qed.

Lemma write_payload_byte (s : state) (i : nat) :
  is_T (data (this s)) -> (i < sizeofT)%nat ->
  eeprom (snd (write s)) (addr (this s) + Z.of_nat i)
  = nth i (data (this s)) Byte.x00.
Proof.
  autounfold with param_ops. intros HT Hi. cbn [snd set_eeprom eeprom this].
  rewrite EEPROM_write_other by lia.
  apply EEPROM_put_inside. lia.
Qed.

Lemma write_payload (s : state) :
  is_T (data (this s)) ->
  EEPROM.get (eeprom (snd (write s))) (addr (this s)) sizeofT = data (this s).
Proof.
  autounfold with param_ops. intros HT. cbn [snd set_eeprom eeprom this].
  rewrite EEPROM_get_write_outside by lia.
  rewrite <- HT at 1. apply EEPROM_get_put.
Qed.

Lemma write_elsewhere (s : state) (a : Z) :
  is_T (data (this s)) ->
  a < addr (this s) \/ crc_addr s < a ->
  eeprom (snd (write s)) a = eeprom s a.
Proof.
  autounfold with param_ops. intros HT Ha. cbn [snd set_eeprom eeprom this].
  rewrite EEPROM_write_other by lia.
  apply EEPROM_put_outside. lia.
Qed.

Lemma discard_this (s : state) : this (snd (discard s)) = this s.
Proof. reflexivity. Qed.

Lemma discard_crc_byte (s : state) :
  eeprom (snd (discard s)) (crc_addr s) = bitnot_u8 (eeprom s (crc_addr s)).
Proof.
  autounfold with param_ops. unfold EEPROM.read. cbn [snd set_eeprom eeprom].
  apply EEPROM_write_same.
Qed.

Lemma discard_elsewhere (s : state) (a : Z) :
  a <> crc_addr s -> eeprom (snd (discard s)) a = eeprom s a.
Proof.
  intros Ha. autounfold with param_ops. cbn [snd set_eeprom eeprom].
  apply EEPROM_write_other. exact Ha.
Qed.

Lemma discard_payload (s : state) :
  EEPROM.get (eeprom (snd (discard s))) (addr (this s)) sizeofT
  = EEPROM.get (eeprom s) (addr (this s)) sizeofT.
Proof.
  apply EEPROM_get_ext. intros a Ha. apply discard_elsewhere. lia.
Qed.

(** ** The properties of the specification *)

(** C1, round trip: for every payload [v] of type [T] and every base
    address, once the working copy is [v], [write()] followed by [read()]
    on the same instance returns success and leaves a working copy that is
    byte for byte [v]. *)
Theorem C1_round_trip (m : EEPROM.t) (a : Z) (v : list byte) :
  is_T v ->
  let r := read (snd (write (mkState m (mkParam v a)))) in
  fst r = true /\ data (this (snd r)) = v.
Proof.
  intros HT. cbv zeta.
  set (s := mkState m (mkParam v a)).
  rewrite read_unfold. cbn [fst snd set_data data this].
  rewrite write_this.
  rewrite (write_payload s HT), (write_crc_byte s).
  split; [apply eq_u8_refl | reflexivity].
Qed.

(** C2, discard invalidates: for every payload [v], [write()] followed by
    [discard()] makes the next [read()] report a checksum mismatch. *)
Theorem C2_discard_invalidates (m : EEPROM.t) (a : Z) (v : list byte) :
  is_T v ->
  fst (read (snd (discard (snd (write (mkState m (mkParam v a))))))) = false.
Proof.
  intros HT.
  set (s := mkState m (mkParam v a)).
  set (s1 := snd (write s)).
  assert (E1 : this s1 = this s) by reflexivity.
  rewrite read_unfold. cbn [fst].
  rewrite discard_this.
  rewrite (discard_payload s1), (discard_crc_byte s1).
  rewrite E1. unfold s1.
  rewrite (write_payload s HT), (write_crc_byte s).
  apply eq_u8_false_iff. intros E. symmetry in E. revert E.
  apply bitnot_u8_neq.
Qed.

(** C3, the effect of [discard()] on the medium: for every medium state the
    byte at [addr + sizeof(T)] is replaced by its bitwise complement (every
    one of its eight bits is inverted), every other byte of the medium is
    unchanged, in particular the [sizeof(T)] payload bytes from [addr]
    on. *)
Theorem C3_discard_medium_effect (s : state) :
  let m := eeprom s in
  let m' := eeprom (snd (discard s)) in
  (forall k, 0 <= k < 8 ->
     Z.testbit (byte.unsigned (m' (crc_addr s))) k
     = negb (Z.testbit (byte.unsigned (m (crc_addr s))) k)) /\
  byte.unsigned (m' (crc_addr s)) = 255 - byte.unsigned (m (crc_addr s)) /\
  (forall a, a <> crc_addr s -> m' a = m a) /\
  EEPROM.get m' (addr (this s)) sizeofT = EEPROM.get m (addr (this s)) sizeofT.
Proof.
  cbv zeta. rewrite discard_crc_byte. repeat split.
  - intros k Hk. apply bitnot_u8_testbit. exact Hk.
  - apply bitnot_u8_unsigned.
  - intros a Ha. apply discard_elsewhere. exact Ha.
  - apply discard_payload.
Qed.

(** C4, two calls of [discard()] in a row are the identity on the medium:
    the stored checksum byte is back to its original value, no other byte
    has changed, and [read()] gives the same verdict (and the same working
    copy) as it would have given before the two calls. *)
Theorem C4_double_discard_identity (s : state) :
  let s2 := snd (discard (snd (discard s))) in
  eeprom s2 (crc_addr s) = eeprom s (crc_addr s) /\
  (forall a, eeprom s2 a = eeprom s a) /\
  this s2 = this s /\
  fst (read s2) = fst (read s) /\
  data (this (snd (read s2))) = data (this (snd (read s))).
Proof.
  cbv zeta.
  assert (Hm : forall a,
             eeprom (snd (discard (snd (discard s)))) a = eeprom s a).
  { intros a. destruct (Z.eq_dec a (crc_addr s)) as [->|Ha].
    - pose proof (discard_crc_byte (snd (discard s))) as E2.
      rewrite discard_this in E2. rewrite E2, discard_crc_byte.
      apply bitnot_u8_involutive.
    - rewrite discard_elsewhere by (rewrite discard_this; exact Ha).
      apply discard_elsewhere. exact Ha. }
  split; [apply Hm|]. split; [exact Hm|]. split; [reflexivity|].
  apply read_congr; [exact Hm | reflexivity].
Qed.

(** C5, [read()] always overwrites the working copy: for every medium
    state the working copy after [read()] is the [sizeof(T)] bytes of the
    medium from [addr] on, whatever [read()] returns and whatever the
    working copy held before; the medium is left as it was. *)
Theorem C5_read_overwrites_working_copy (s : state) :
  data (this (snd (read s))) = EEPROM.get (eeprom s) (addr (this s)) sizeofT /\
  snd (read s) = set_data s (EEPROM.get (eeprom s) (addr (this s)) sizeofT) /\
  eeprom (snd (read s)) = eeprom s.
Proof.
  rewrite read_unfold. cbn [snd set_data data this eeprom].
  repeat split.
Qed.

(** The failure case of C5 exists for every checksum function and every
    non-empty record type: a well-formed instance whose [read()] reports a
    mismatch and whose working copy has been replaced all the same. *)
Lemma read_failure_clobbers :
  (0 < sizeofT)%nat ->
  exists s : state,
    is_T (data (this s)) /\
    fst (read s) = false /\
    data (this (snd (read s))) <> data (this s).
Proof.
  intros Hn.
  set (m0 := fun _ : Z => Byte.x00).
  set (m := EEPROM.write m0 (Z.of_nat sizeofT)
              (bitnot_u8 (crc_calc (EEPROM.get m0 0 sizeofT)))).
  exists (mkState m (mkParam (Byte.x01 :: repeat Byte.x00 (sizeofT - 1)) 0)).
  cbn [this data]. split; [|split].
  - autounfold with param_ops. cbn [length]. rewrite repeat_length. lia.
  - rewrite read_unfold. cbn [fst eeprom this addr].
    unfold m at 1. rewrite EEPROM_get_write_outside by lia.
    unfold m. rewrite Z.add_0_l, EEPROM_write_same.
    apply eq_u8_false_iff. intros E. symmetry in E. revert E.
    apply bitnot_u8_neq.
  - rewrite read_unfold. cbn [snd set_data data this eeprom addr].
    unfold m. rewrite EEPROM_get_write_outside by lia.
    destruct sizeofT as [|n]; [lia|].
    cbn [EEPROM.get EEPROM.read]. unfold m0 at 1. discriminate.
Qed.

(** C6, clear semantics: after [clear()] every byte of the working copy is
    zero and the medium is what it was, so that a following [read()]
    returns what it would have returned without the [clear()]: the content
    of the medium, not the cleared record. *)
Theorem C6_clear_semantics (s : state) :
  let s' := snd (clear s) in
  data (this s') = repeat Byte.x00 sizeofT /\
  Forall (fun b => b = Byte.x00) (data (this s')) /\
  is_T (data (this s')) /\
  eeprom s' = eeprom s /\
  read s' = read s.
Proof.
  cbv zeta. autounfold with param_ops. cbn [snd set_data data this eeprom addr].
  repeat split.
  - apply Forall_forall. intros b Hb. apply repeat_spec in Hb. exact Hb.
  - apply repeat_length.
Qed.

(** C7, span: for every record type and every instance state, [size()]
    returns [sizeof(T) + 1] and leaves the medium and the working copy
    as they were. *)
Theorem C7_size_span (s : state) :
  size s = (Z.of_nat sizeofT + 1, s).
Proof. reflexivity. Qed.

(** C9, single-bit corruption: given that the checksum function detects
    every single-bit error, for every payload [v], after [write()] of [v],
    inverting any one bit [k] of any one payload byte [i] in the medium
    makes [read()] report a checksum mismatch. *)
Theorem C9_single_bit_corruption_detected
    (m : EEPROM.t) (a : Z) (v : list byte) (i : nat) (k : Z) :
  detects_single_bit_errors crc_calc ->
  is_T v -> (i < sizeofT)%nat -> 0 <= k < 8 ->
  let s1 := snd (write (mkState m (mkParam v a))) in
  fst (read (set_eeprom s1 (corrupt (eeprom s1) (a + Z.of_nat i) k))) = false.
Proof.
  intros Hcrc HT Hi Hk. cbv zeta.
  set (s := mkState m (mkParam v a)).
  set (s1 := snd (write s)).
  assert (Ea : addr (this s1) = a) by reflexivity.
  rewrite read_unfold. cbn [fst set_eeprom eeprom this]. rewrite Ea.
  rewrite EEPROM_get_corrupt by exact Hi.
  unfold corrupt at 1. rewrite EEPROM_write_other by lia.
  pose proof (write_payload s HT) as Ep.
  pose proof (write_crc_byte s) as Ec.
  cbn [s this addr] in Ep, Ec. fold s in Ep, Ec. fold s1 in Ep, Ec.
  rewrite Ep, Ec. cbn [data].
  apply eq_u8_false_iff. apply Hcrc; [|exact Hk].
  autounfold with param_ops in HT. lia.
Qed.

(** C10, the base address: the constructor keeps its argument reduced
    modulo 256 (the value of the [uint8_t] member), which is 0 when no
    argument is given, and none of [clear], [read], [write], [discard] and
    [size] changes the stored address. *)
Theorem C10_address_truncated_and_fixed :
  (forall (_addr : Z) (m : EEPROM.t),
     addr (this (Param_ctor sizeofT _addr m)) = _addr mod 256) /\
  (forall (_addr : Z) (m : EEPROM.t),
     0 <= addr (this (Param_ctor sizeofT _addr m)) < 256) /\
  (forall m : EEPROM.t, addr (this (Param_default sizeofT m)) = 0) /\
  (forall s, addr (this (snd (clear s))) = addr (this s)) /\
  (forall s, addr (this (snd (read s))) = addr (this s)) /\
  (forall s, addr (this (snd (write s))) = addr (this s)) /\
  (forall s, addr (this (snd (discard s))) = addr (this s)) /\
  (forall s, addr (this (snd (size s))) = addr (this s)).
Proof.
  split; [reflexivity|].
  split; [intros _addr m; apply Z.mod_pos_bound; reflexivity|].
  split; [reflexivity|].
  split; [reflexivity|].
  split; [intros s; rewrite read_unfold; reflexivity|].
  repeat split.
Qed.

End ParamT_facts.

(** ** The layout scenario *)

(** C8 as the specification words it does not hold, on either target: with
    the medium filled with 0xFF beforehand, the byte at offset 17 has changed
    after [write()], so more than 17 bytes are stored. *)
Lemma C8_scenario_layout_counterexample :
  ~ scenario_layout_as_stated AVR8 CRC8.calc /\
  ~ scenario_layout_as_stated ARM32 CRC8.calc.
Proof.
  split; intros H; specialize (H erased); cbv zeta in H;
    destruct H as [H _]; specialize (H 17 ltac:(lia));
    vm_compute in H; discriminate.
Qed.

(** C8, amended: for [T = UserData_t] bound at address 0 with an all-zero
    working copy, [write()] stores exactly [sizeof(T) + 1] bytes:
    [sizeof(T)] zero payload bytes from offset 0 on, followed by one checksum
    byte at offset [sizeof(T)] equal to the checksum of [sizeof(T)] zero
    bytes; no other byte of the medium changes.  [sizeof(T)] is at least 17
    (16 bytes of [a] and one of [b]): 17 on 8-bit AVR, 20 on the 32-bit
    targets. *)
Theorem C8_scenario_layout
    (tg : target) (crc : list byte -> byte) (m : EEPROM.t) :
  let n := sizeof_struct tg UserData_t in
  let s := Param_ctor n 0 m in
  let m' := eeprom (snd (write n crc s)) in
  (17 <= n)%nat /\
  n = match tg with AVR8 => 17%nat | ARM32 => 20%nat end /\
  fst (size n s) = Z.of_nat n + 1 /\
  EEPROM.get m' 0 n = repeat Byte.x00 n /\
  m' (Z.of_nat n) = crc (repeat Byte.x00 n) /\
  (forall a, a < 0 \/ Z.of_nat n < a -> m' a = m a).
Proof.
  intros n s m'.
  assert (HT : is_T n (data (this s))).
  { unfold s. autounfold with param_ops.
    cbn [snd set_data this data]. apply repeat_length. }
  assert (Ea : addr (this s) = 0) by reflexivity.
  assert (Ed : data (this s) = repeat Byte.x00 n) by reflexivity.
  split; [destruct tg; vm_compute; lia|].
  split; [destruct tg; reflexivity|].
  split; [reflexivity|].
  split; [|split].
  - pose proof (write_payload n crc s HT) as E.
    rewrite Ea, Ed in E. exact E.
  - pose proof (write_crc_byte n crc s) as E.
    rewrite Ea, Ed, Z.add_0_l in E. exact E.
  - intros a Ha.
    pose proof (write_elsewhere n crc s a HT) as E.
    rewrite Ea, Z.add_0_l in E. apply E. exact Ha.
Qed.

(** ** The theorems at concrete inputs *)

Lemma C1_round_trip_witness :
  is_T 2 [Byte.x12; Byte.x34] /\
  (let r := read 2 CRC8.calc
              (snd (write 2 CRC8.calc
                      (mkState erased
                               (mkParam [Byte.x12; Byte.x34] 10)))) in
   fst r = true /\ data (this (snd r)) = [Byte.x12; Byte.x34]).
Proof.
  split; [reflexivity|].
  apply (C1_round_trip 2 CRC8.calc erased 10
           [Byte.x12; Byte.x34]).
  reflexivity.
Defined.

Lemma C2_discard_invalidates_witness :
  is_T 2 [Byte.x12; Byte.x34] /\
  fst (read 2 CRC8.calc
         (snd (discard 2
                 (snd (write 2 CRC8.calc
                         (mkState erased
                                  (mkParam [Byte.x12; Byte.x34] 10)))))))
  = false.
Proof.
  split; [reflexivity|].
  apply (C2_discard_invalidates 2 CRC8.calc erased 10
           [Byte.x12; Byte.x34]).
  reflexivity.
Defined.

Lemma C9_single_bit_corruption_detected_witness :
  detects_single_bit_errors CRC8.calc /\
  is_T 2 [Byte.x12; Byte.x34] /\ (1 < 2)%nat /\ 0 <= 5 < 8 /\
  (let s1 := snd (write 2 CRC8.calc
                    (mkState erased
                             (mkParam [Byte.x12; Byte.x34] 10))) in
   fst (read 2 CRC8.calc
          (set_eeprom s1 (corrupt (eeprom s1) (10 + Z.of_nat 1) 5))) = false).
Proof.
  split; [exact CRC8_detects_single_bit_errors|].
  split; [reflexivity|].
  split; [lia|].
  split; [lia|].
  apply (C9_single_bit_corruption_detected 2 CRC8.calc erased 10
           [Byte.x12; Byte.x34] 1 5).
  - exact CRC8_detects_single_bit_errors.
  - reflexivity.
  - lia.
  - lia.
Defined.

(** ** Further properties of the member functions *)

(** [read] looks at the cells [addr .. addr + sizeof(T)] only. *)
Lemma read_local (n : nat) (crc : list byte -> byte) (s s' : state) :
  addr (this s') = addr (this s) ->
  (forall a, addr (this s) <= a <= addr (this s) + Z.of_nat n ->
             eeprom s' a = eeprom s a) ->
  fst (read n crc s') = fst (read n crc s) /\
  data (this (snd (read n crc s'))) = data (this (snd (read n crc s))).
Proof.
  intros Ha Hm. rewrite !read_unfold. cbn [fst snd set_data data this].
  rewrite Ha, Hm by lia.
  rewrite (EEPROM_get_ext (eeprom s) (eeprom s')) by (intros; apply Hm; lia).
  split; reflexivity.
Qed.

Lemma run_app (n : nat) (crc : list byte -> byte) (cs1 cs2 : list call)
    (s : state) :
  run n crc (cs1 ++ cs2) s = run n crc cs2 (run n crc cs1 s).
Proof. unfold run. apply fold_left_app. Qed.

Section ParamT_more.

Variable sizeofT : nat.
Variable crc_calc : list byte -> byte.

(* [read()] of an instance of another record type, of [n] bytes. *)
Local Abbreviation read_other n := (read n crc_calc).
Local Abbreviation clear := (clear sizeofT).
Local Abbreviation read := (read sizeofT crc_calc).
Local Abbreviation write := (write sizeofT crc_calc).
Local Abbreviation discard := (discard sizeofT).
Local Abbreviation size := (size sizeofT).
Local Abbreviation is_T := (is_T sizeofT).
Local Abbreviation Param_ctor := (Param_ctor sizeofT).
Local Abbreviation crc_addr s := (addr (this s) + Z.of_nat sizeofT).

(** X1, instances on disjoint ranges do not interfere: when the cells
    [addr .. addr + sizeof(T)] of an instance and the cells of a second
    instance (of a record type of [n2] bytes) are disjoint, neither [write()]
    nor [discard()] on the first changes what [read()] on the second returns
    and loads. *)
Theorem X1_disjoint_instances_independent
    (n2 : nat) (s : state) (p2 : Param) :
  is_T (data (this s)) ->
  addr p2 + Z.of_nat n2 < addr (this s) \/ crc_addr s < addr p2 ->
  let r0 := read_other n2 (mkState (eeprom s) p2) in
  let rw := read_other n2 (mkState (eeprom (snd (write s))) p2) in
  let rd := read_other n2 (mkState (eeprom (snd (discard s))) p2) in
  (fst rw = fst r0 /\ data (this (snd rw)) = data (this (snd r0))) /\
  (fst rd = fst r0 /\ data (this (snd rd)) = data (this (snd r0))).
Proof.
  intros HT Hdis. cbv zeta. split.
  - apply read_local; [reflexivity|]. cbn [this eeprom]. intros a Ha.
    apply write_elsewhere; [exact HT | lia].
  - apply read_local; [reflexivity|]. cbn [this eeprom]. intros a Ha.
    apply discard_elsewhere. lia.
Qed.

(** X2, instances spaced by [sizeof(T)] instead of [size()] collide: when a
    second instance of the same record type is bound at [addr + sizeof(T)],
    its [write()] puts the first byte of its record on the checksum cell of
    the first instance.  [read()] on the first instance still loads the
    first record, and succeeds exactly when that byte happens to equal the
    checksum of the first record. *)
Theorem X2_spacing_by_sizeof_collides
    (m : EEPROM.t) (a : Z) (v1 v2 d : list byte) :
  is_T v1 -> is_T v2 -> (0 < sizeofT)%nat ->
  let m1 := eeprom (snd (write (mkState m (mkParam v1 a)))) in
  let m2 := eeprom (snd (write (mkState m1
                                  (mkParam v2 (a + Z.of_nat sizeofT))))) in
  let r := read (mkState m2 (mkParam d a)) in
  fst r = eq_u8 (crc_calc v1) (nth 0 v2 Byte.x00) /\
  data (this (snd r)) = v1.
Proof.
  intros H1 H2 Hn. cbv zeta.
  set (s1 := mkState m (mkParam v1 a)).
  set (s2 := mkState (eeprom (snd (write s1)))
                     (mkParam v2 (a + Z.of_nat sizeofT))).
  rewrite read_unfold. cbn [fst snd set_data data this eeprom addr].
  assert (Eg : EEPROM.get (eeprom (snd (write s2))) a sizeofT = v1).
  { transitivity (EEPROM.get (eeprom (snd (write s1))) a sizeofT);
      [|exact (write_payload sizeofT crc_calc s1 H1)].
    apply EEPROM_get_ext. intros a' Ha'.
    apply (write_elsewhere sizeofT crc_calc s2 a' H2).
    cbn [s2 this addr]. lia. }
  rewrite Eg. split; [|reflexivity]. f_equal.
  pose proof (write_payload_byte sizeofT crc_calc s2 0 H2 Hn) as E.
  cbn [s2 this addr data] in E. fold s2 in E.
  rewrite Z.add_0_r in E. exact E.
Qed.

(** X3, constructor arguments 256 apart name the same cells: what an
    instance constructed with [_addr + 256] writes is read back, with
    success, by an instance constructed with [_addr]. *)
Theorem X3_addresses_alias_modulo_256
    (m : EEPROM.t) (_addr : Z) (v : list byte) :
  is_T v ->
  let s1 := set_data (Param_ctor (_addr + 256) m) v in
  let r := read (Param_ctor _addr (eeprom (snd (write s1)))) in
  fst r = true /\ data (this (snd r)) = v.
Proof.
  intros HT. cbv zeta.
  set (s1 := set_data (Param_ctor (_addr + 256) m) v).
  assert (Ea : addr (this s1) = _addr mod 256).
  { cbn. unfold uint8_t. change (2 ^ 8) with 256.
    replace (_addr + 256) with (_addr + 1 * 256) by lia.
    apply Z_mod_plus_full. }
  pose proof (write_payload sizeofT crc_calc s1 HT) as Ep.
  pose proof (write_crc_byte sizeofT crc_calc s1) as Ec.
  rewrite Ea in Ep, Ec.
  set (s2 := Param_ctor _addr (eeprom (snd (write s1)))).
  assert (Ea2 : addr (this s2) = _addr mod 256) by reflexivity.
  assert (Em : eeprom s2 = eeprom (snd (write s1))) by reflexivity.
  rewrite read_unfold. cbn [fst snd set_data data this].
  rewrite Ea2, Em, Ep, Ec.
  split; [apply eq_u8_refl | reflexivity].
Qed.

(** X4, storing what was just loaded changes nothing: after a [read()] that
    succeeds, [write()] leaves every cell of the medium as it was. *)
Theorem X4_write_after_good_read_keeps_medium (s : state) :
  fst (read s) = true ->
  forall a, eeprom (snd (write (snd (read s)))) a = eeprom s a.
Proof.
  rewrite read_unfold. cbn [fst snd]. intros Hok a.
  apply eq_u8_true_iff in Hok.
  set (d := EEPROM.get (eeprom s) (addr (this s)) sizeofT) in *.
  set (s1 := set_data s d).
  assert (HT : is_T (data (this s1))) by apply EEPROM_get_length.
  destruct (Z_lt_dec a (addr (this s))) as [Hlo|Hlo].
  { apply (write_elsewhere sizeofT crc_calc s1 a HT). left. exact Hlo. }
  destruct (Z_lt_dec (crc_addr s) a) as [Hhi|Hhi].
  { apply (write_elsewhere sizeofT crc_calc s1 a HT). right. exact Hhi. }
  destruct (Z.eq_dec a (crc_addr s)) as [->|Hne].
  { pose proof (write_crc_byte sizeofT crc_calc s1) as Ec.
    change (addr (this s1)) with (addr (this s)) in Ec.
    rewrite Ec. exact Hok. }
  replace a with (addr (this s1) + Z.of_nat (Z.to_nat (a - addr (this s))))
    by (cbn [s1 set_data this addr]; lia).
  rewrite (write_payload_byte sizeofT crc_calc s1) by (exact HT || lia).
  cbn [s1 set_data this data addr]. unfold d.
  apply EEPROM_get_nth. lia.
Qed.

(** X5, [discard()] invalidates every valid record, however it came to be on
    the medium: if [read()] would succeed, then after [discard()] it reports
    a mismatch. *)
Theorem X5_discard_invalidates_valid (s : state) :
  fst (read s) = true -> fst (read (snd (discard s))) = false.
Proof.
  rewrite !read_unfold. cbn [fst]. intros Hok.
  apply eq_u8_true_iff in Hok.
  rewrite discard_this, discard_payload, discard_crc_byte, Hok.
  apply eq_u8_false_iff. intros E. symmetry in E. revert E.
  apply bitnot_u8_neq.
Qed.

(** X6, [discard()] can validate an invalid record: whatever the payload on
    the medium, when the checksum cell holds the complement of the payload's
    checksum, [read()] reports a mismatch, and after one [discard()] it
    succeeds. *)
Theorem X6_discard_validates_complemented (s : state) :
  let payload := EEPROM.get (eeprom s) (addr (this s)) sizeofT in
  let s' := set_eeprom s (EEPROM.write (eeprom s) (crc_addr s)
                            (bitnot_u8 (crc_calc payload))) in
  fst (read s') = false /\ fst (read (snd (discard s'))) = true.
Proof.
  cbv zeta.
  set (payload := EEPROM.get (eeprom s) (addr (this s)) sizeofT).
  set (s' := set_eeprom s _).
  assert (Ep : EEPROM.get (eeprom s') (addr (this s')) sizeofT = payload).
  { apply EEPROM_get_write_outside. cbn [s' set_eeprom this]. lia. }
  assert (Ec : eeprom s' (crc_addr s') = bitnot_u8 (crc_calc payload)).
  { apply EEPROM_write_same. }
  split.
  - rewrite read_unfold. cbn [fst]. rewrite Ep, Ec.
    apply eq_u8_false_iff. intros E. symmetry in E. revert E.
    apply bitnot_u8_neq.
  - rewrite read_unfold. cbn [fst].
    rewrite discard_this, discard_payload, discard_crc_byte, Ep, Ec.
    rewrite bitnot_u8_involutive. apply eq_u8_refl.
Qed.

(** X7, a damaged checksum cell is always detected, whatever the checksum
    function: after [write()] of a record, any other value in the cell at
    [addr + sizeof(T)] makes [read()] report a mismatch. *)
Theorem X7_checksum_cell_damage_detected
    (m : EEPROM.t) (a : Z) (v : list byte) (b : byte) :
  is_T v -> b <> crc_calc v ->
  let s1 := snd (write (mkState m (mkParam v a))) in
  fst (read (set_eeprom s1
               (EEPROM.write (eeprom s1) (a + Z.of_nat sizeofT) b))) = false.
Proof.
  intros HT Hb. cbv zeta.
  set (s := mkState m (mkParam v a)).
  pose proof (write_payload sizeofT crc_calc s HT) as Ep.
  change (addr (this s)) with a in Ep. change (data (this s)) with v in Ep.
  rewrite read_unfold. cbn [fst set_eeprom eeprom this].
  change (addr (this (snd (write s)))) with a.
  rewrite EEPROM_get_write_outside by lia.
  rewrite Ep, EEPROM_write_same.
  apply eq_u8_false_iff. congruence.
Qed.

(** X8, a replaced payload passes the check exactly when the checksums
    collide: after [write()] of [v], if the payload cells are overwritten
    out of band with another record [v'], [read()] loads [v'] and succeeds
    if and only if [v'] has the checksum of [v]. *)
Theorem X8_replaced_payload_passes_iff_collision
    (m : EEPROM.t) (a : Z) (v v' : list byte) :
  is_T v -> is_T v' ->
  let s1 := snd (write (mkState m (mkParam v a))) in
  let r := read (set_eeprom s1 (EEPROM.put (eeprom s1) a v')) in
  (fst r = true <-> crc_calc v' = crc_calc v) /\
  data (this (snd r)) = v'.
Proof.
  intros HT HT'. cbv zeta.
  set (s := mkState m (mkParam v a)).
  pose proof (write_crc_byte sizeofT crc_calc s) as Ec.
  change (addr (this s)) with a in Ec. change (data (this s)) with v in Ec.
  rewrite read_unfold. cbn [fst snd set_data set_eeprom eeprom this data].
  change (addr (this (snd (write s)))) with a.
  assert (Eg : EEPROM.get (EEPROM.put (eeprom (snd (write s))) a v') a sizeofT
               = v').
  { rewrite <- HT' at 2. apply EEPROM_get_put. }
  rewrite Eg, EEPROM_put_outside by (rewrite HT'; lia).
  rewrite Ec. split; [apply eq_u8_true_iff | reflexivity].
Qed.

Local Abbreviation call_ok := (call_ok sizeofT).
Local Abbreviation do_call := (do_call sizeofT crc_calc).
Local Abbreviation run := (run sizeofT crc_calc).

Lemma read_after_write (s : state) :
  is_T (data (this s)) -> fst (read (snd (write s))) = true.
Proof.
  intros HT. rewrite read_unfold. cbn [fst]. rewrite write_this.
  rewrite (write_payload sizeofT crc_calc s HT), write_crc_byte.
  apply eq_u8_refl.
Qed.

Lemma do_call_inv (s : state) (c : call) :
  is_T (data (this s)) -> call_ok c ->
  addr (this (do_call s c)) = addr (this s) /\
  is_T (data (this (do_call s c))) /\
  (forall a, a < addr (this s) \/ crc_addr s < a ->
             eeprom (do_call s c) a = eeprom s a).
Proof.
  intros HT Hc. destruct c.
  - change (do_call s Clear) with (snd (clear s)).
    split; [reflexivity|]. split; [apply repeat_length | reflexivity].
  - change (do_call s Read) with (snd (read s)).
    rewrite read_unfold. cbn [snd set_data this data addr eeprom].
    split; [reflexivity|]. split; [apply EEPROM_get_length | reflexivity].
  - change (do_call s Write) with (snd (write s)).
    split; [reflexivity|]. split; [exact HT|].
    intros a Ha. apply write_elsewhere; assumption.
  - change (do_call s Discard) with (snd (discard s)).
    split; [reflexivity|]. split; [exact HT|].
    intros a Ha. apply discard_elsewhere. lia.
  - change (do_call s Size) with s.
    split; [reflexivity|]. split; [exact HT | reflexivity].
  - change (do_call s (Assign v)) with (set_data s v).
    split; [reflexivity|]. split; [exact Hc | reflexivity].
Qed.

Lemma run_inv (cs : list call) :
  forall s : state,
    is_T (data (this s)) -> Forall call_ok cs ->
    addr (this (run cs s)) = addr (this s) /\
    is_T (data (this (run cs s))) /\
    (forall a, a < addr (this s) \/ crc_addr s < a ->
               eeprom (run cs s) a = eeprom s a).
Proof.
  induction cs as [|c cs IH]; intros s HT Hcs.
  - split; [reflexivity|]. split; [exact HT | reflexivity].
  - change (run (c :: cs) s) with (run cs (do_call s c)).
    inversion Hcs as [|c' cs' Hc Hcs']; subst.
    destruct (do_call_inv s c HT Hc) as (Ea & HT1 & Hm).
    destruct (IH (do_call s c) HT1 Hcs') as (Ea' & HT' & Hm').
    split; [congruence|]. split; [exact HT'|].
    intros a Ha. rewrite Hm' by (rewrite Ea; exact Ha). apply Hm. exact Ha.
Qed.

Lemma do_call_valid (s : state) (c : call) :
  is_T (data (this s)) -> call_ok c -> is_discard c = false ->
  fst (read s) = true -> fst (read (do_call s c)) = true.
Proof.
  intros HT Hc Hd Hok.
  destruct c; try discriminate Hd.
  - rewrite <- Hok. apply read_congr; reflexivity.
  - rewrite <- Hok. change (do_call s Read) with (snd (read s)).
    apply read_congr; rewrite read_unfold; reflexivity.
  - apply read_after_write. exact HT.
  - exact Hok.
  - rewrite <- Hok. apply read_congr; reflexivity.
Qed.

Lemma run_valid (cs : list call) :
  forall s : state,
    is_T (data (this s)) -> Forall call_ok cs ->
    existsb is_discard cs = false ->
    fst (read s) = true -> fst (read (run cs s)) = true.
Proof.
  induction cs as [|c cs IH]; intros s HT Hcs Hnd Hok; [exact Hok|].
  change (run (c :: cs) s) with (run cs (do_call s c)).
  inversion Hcs as [|c' cs' Hc Hcs']; subst.
  cbn [existsb] in Hnd. apply orb_false_iff in Hnd. destruct Hnd as [Hd Hnd].
  apply IH; [apply (do_call_inv s c HT Hc) | exact Hcs' | exact Hnd |].
  apply do_call_valid; assumption.
Qed.

(** X9, an instance stays on its cells: whatever sequence of member calls
    and assignments to [data] a caller makes, the address of the instance is
    the one it started with and no cell of the medium outside
    [addr .. addr + sizeof(T)] changes. *)
Theorem X9_calls_stay_on_own_cells (cs : list call) (s : state) :
  is_T (data (this s)) -> Forall call_ok cs ->
  addr (this (run cs s)) = addr (this s) /\
  (forall a, a < addr (this s) \/ crc_addr s < a ->
             eeprom (run cs s) a = eeprom s a).
Proof.
  intros HT Hcs. destruct (run_inv cs s HT Hcs) as (Ea & _ & Hm).
  split; assumption.
Qed.

(** X10, the cells an instance can reach: whatever the constructor argument
    and whatever the calls made afterwards, no cell below 0 or above
    [255 + sizeof(T)] is ever changed. *)
Theorem X10_cells_above_255_plus_sizeof_unreachable
    (_addr : Z) (m : EEPROM.t) (cs : list call) (a : Z) :
  Forall call_ok cs ->
  a < 0 \/ 255 + Z.of_nat sizeofT < a ->
  eeprom (run cs (Param_ctor _addr m)) a = m a.
Proof.
  intros Hcs Ha.
  set (s := Param_ctor _addr m).
  assert (HT : is_T (data (this s))) by apply repeat_length.
  assert (Hr : 0 <= addr (this s) < 256).
  { apply Z.mod_pos_bound. reflexivity. }
  destruct (run_inv cs s HT Hcs) as (_ & _ & Hm).
  rewrite Hm by lia. reflexivity.
Qed.

(** X11, a written record stays valid until it is discarded: once [write()]
    has been called, whatever calls and assignments follow, as long as
    [discard()] is not among them, [read()] succeeds. *)
Theorem X11_valid_after_write_until_discard
    (cs1 cs2 : list call) (s : state) :
  is_T (data (this s)) ->
  Forall call_ok (cs1 ++ Write :: cs2) ->
  existsb is_discard cs2 = false ->
  fst (read (run (cs1 ++ Write :: cs2) s)) = true.
Proof.
  intros HT Hcs Hnd.
  apply Forall_app in Hcs. destruct Hcs as [H1 H2].
  inversion H2 as [|c cs Hw H2']; subst.
  rewrite run_app.
  destruct (run_inv cs1 s HT H1) as (_ & HT1 & _).
  set (s1 := run cs1 s) in *.
  change (run (Write :: cs2) s1) with (run cs2 (snd (write s1))).
  apply run_valid; [exact HT1 | exact H2' | exact Hnd |].
  apply read_after_write. exact HT1.
Qed.

(** X12, a valid record stays valid until it is discarded: if [read()] would
    succeed, it still succeeds after any sequence of calls and assignments
    that does not contain [discard()]. *)
Theorem X12_valid_kept_without_discard (cs : list call) (s : state) :
  is_T (data (this s)) -> Forall call_ok cs ->
  existsb is_discard cs = false ->
  fst (read s) = true -> fst (read (run cs s)) = true.
Proof.
  intros HT Hcs Hnd Hok. apply run_valid; assumption.
Qed.

End ParamT_more.

(** ** The demo of the README, power cycle by power cycle *)

Lemma layout_UserData_t (tg : target) :
  (offsetof_b tg < sizeof_struct tg UserData_t)%nat.
Proof. destruct tg; vm_compute; lia. Qed.

Lemma store_byte_length (d : list byte) :
  forall i b, length (store_byte d i b) = length d.
Proof.
  induction d as [|x d IH]; intros [|i] b; simpl; try reflexivity.
  rewrite IH. reflexivity.
Qed.

Lemma store_byte_nth_same (d : list byte) :
  forall i b, (i < length d)%nat -> nth i (store_byte d i b) Byte.x00 = b.
Proof.
  induction d as [|x d IH]; intros [|i] b Hi; simpl in *; try lia.
  - reflexivity.
  - apply IH. lia.
Qed.

Lemma store_byte_nth_other (d : list byte) :
  forall i j b, i <> j -> nth j (store_byte d i b) Byte.x00 = nth j d Byte.x00.
Proof.
  induction d as [|x d IH]; intros [|i] [|j] b Hij; simpl; try reflexivity.
  - contradiction.
  - apply IH. congruence.
Qed.

(** The last two statements of [setup()]: a byte of the record replaced,
    then [write()]. *)
Lemma store_then_write (n : nat) (crc : list byte -> byte) (s1 : state)
    (i : nat) (x : byte) :
  is_T n (data (this s1)) ->
  let d2 := store_byte (data (this s1)) i x in
  let mf := eeprom (snd (write n crc (set_data s1 d2))) in
  EEPROM.get mf (addr (this s1)) n = d2 /\
  mf (addr (this s1) + Z.of_nat n) = crc d2 /\
  (forall a, a < addr (this s1) \/ addr (this s1) + Z.of_nat n < a ->
             mf a = eeprom s1 a).
Proof.
  intros HT d2 mf.
  set (s2 := set_data s1 d2).
  assert (HT2 : is_T n (data (this s2))).
  { unfold is_T in *. cbn [s2 set_data this data]. unfold d2.
    rewrite store_byte_length. exact HT. }
  split; [exact (write_payload n crc s2 HT2)|].
  split; [exact (write_crc_byte n crc s2)|].
  intros a Ha. exact (write_elsewhere n crc s2 a HT2 Ha).
Qed.

Lemma boot_spec (tg : target) (crc : list byte -> byte) (m : EEPROM.t) :
  let n := sizeof_struct tg UserData_t in
  let off := offsetof_b tg in
  let p := EEPROM.get m 0 n in
  let ok := eq_u8 (crc p) (m (Z.of_nat n)) in
  let d := if ok then p else repeat Byte.x00 n in
  let b := nth off d Byte.x00 in
  let d2 := store_byte d off (byte.of_Z (byte.unsigned b + 1)) in
  fst (read n crc (Param_default n m)) = ok /\
  fst (boot tg crc m)
  = [Empty_line; if ok then Parameter_loaded else Parameter_reset;
     Value_of_b (byte.unsigned b)] /\
  EEPROM.get (snd (boot tg crc m)) 0 n = d2 /\
  snd (boot tg crc m) (Z.of_nat n) = crc d2 /\
  (forall a, a < 0 \/ Z.of_nat n < a -> snd (boot tg crc m) a = m a).
Proof.
  intros n off p ok d b d2.
  unfold boot, setup. cbv zeta. fold n off.
  rewrite !read_unfold.
  change (addr (this (Param_default n m))) with 0.
  change (eeprom (Param_default n m)) with m.
  rewrite Z.add_0_l. fold p. fold ok.
  cbn [fst snd].
  assert (Hp : is_T n p) by apply EEPROM_get_length.
  unfold d2, b, d. clear d2 b d. clearbody ok p.
  split; [reflexivity|].
  destruct ok; cbn [negb fst snd].
  - set (s1 := set_data (Param_default n m) p).
    destruct (store_then_write n crc s1 off
                (byte.of_Z (byte.unsigned (nth off (data (this s1)) Byte.x00) + 1))
                Hp) as (E1 & E2 & E3).
    split; [reflexivity|]. split; [exact E1|]. split; [exact E2|]. exact E3.
  - set (s0 := snd (clear n (set_data (Param_default n m) p))).
    assert (H0 : is_T n (data (this s0))) by apply repeat_length.
    set (s1 := snd (write n crc s0)).
    assert (H1 : is_T n (data (this s1))) by exact H0.
    destruct (store_then_write n crc s1 off
                (byte.of_Z (byte.unsigned (nth off (data (this s1)) Byte.x00) + 1))
                H1) as (E1 & E2 & E3).
    split; [reflexivity|]. split; [exact E1|]. split; [exact E2|].
    intros a Ha. rewrite (E3 a Ha).
    exact (write_elsewhere n crc s0 a H0 Ha).
Qed.

Lemma boot_reads_back (tg : target) (crc : list byte -> byte) (m : EEPROM.t) :
  let n := sizeof_struct tg UserData_t in
  fst (read n crc (Param_default n (snd (boot tg crc m)))) = true.
Proof.
  intros n.
  destruct (boot_spec tg crc m) as (_ & _ & Eg & Ec & _). fold n in Eg, Ec.
  rewrite read_unfold. cbn [fst].
  change (addr (this (Param_default n (snd (boot tg crc m))))) with 0.
  change (eeprom (Param_default n (snd (boot tg crc m))))
    with (snd (boot tg crc m)).
  rewrite Z.add_0_l, Eg, Ec. apply eq_u8_refl.
Qed.

Lemma boot_invalid (tg : target) (crc : list byte -> byte) (m : EEPROM.t) :
  let n := sizeof_struct tg UserData_t in
  let off := offsetof_b tg in
  fst (read n crc (Param_default n m)) = false ->
  fst (boot tg crc m) = [Empty_line; Parameter_reset; Value_of_b 0] /\
  EEPROM.get (snd (boot tg crc m)) 0 n
  = store_byte (repeat Byte.x00 n) off Byte.x01.
Proof.
  intros n off Hbad.
  destruct (boot_spec tg crc m) as (Eok & Elog & Eg & _). fold n off in Eok, Elog, Eg.
  rewrite Hbad in Eok. rewrite <- Eok in Elog, Eg.
  rewrite nth_repeat in Elog, Eg.
  split; [exact Elog | exact Eg].
Qed.

Lemma boot_valid (tg : target) (crc : list byte -> byte) (m : EEPROM.t) :
  let n := sizeof_struct tg UserData_t in
  let off := offsetof_b tg in
  fst (read n crc (Param_default n m)) = true ->
  fst (boot tg crc m)
  = [Empty_line; Parameter_loaded;
     Value_of_b (byte.unsigned (m (Z.of_nat off)))] /\
  EEPROM.get (snd (boot tg crc m)) 0 n
  = store_byte (EEPROM.get m 0 n) off
      (byte.of_Z (byte.unsigned (m (Z.of_nat off)) + 1)).
Proof.
  intros n off Hok.
  pose proof (layout_UserData_t tg) as Hoff. fold n off in Hoff.
  destruct (boot_spec tg crc m) as (Eok & Elog & Eg & _). fold n off in Eok, Elog, Eg.
  rewrite Hok in Eok. rewrite <- Eok in Elog, Eg.
  rewrite (EEPROM_get_nth m n 0 off Hoff), Z.add_0_l in Elog, Eg.
  split; [exact Elog | exact Eg].
Qed.

(** The cell of [b] after a power cycle. *)
Lemma boot_cell (tg : target) (crc : list byte -> byte) (m : EEPROM.t)
    (i : nat) :
  let n := sizeof_struct tg UserData_t in
  (i < n)%nat ->
  snd (boot tg crc m) (Z.of_nat i)
  = nth i (EEPROM.get (snd (boot tg crc m)) 0 n) Byte.x00.
Proof.
  intros n Hi. rewrite (EEPROM_get_nth _ n 0 i Hi), Z.add_0_l. reflexivity.
Qed.

Lemma u8_succ_mod (b : byte) (k : Z) :
  byte.unsigned b = k mod 256 ->
  byte.unsigned (byte.of_Z (byte.unsigned b + 1)) = (k + 1) mod 256.
Proof.
  intros E. rewrite byte.unsigned_of_Z. unfold byte.wrap.
  change (2 ^ 8) with 256. rewrite E.
  rewrite Zplus_mod_idemp_l. reflexivity.
Qed.

Lemma boots_counter (tg : target) (crc : list byte -> byte) (m : EEPROM.t) :
  let n := sizeof_struct tg UserData_t in
  let off := offsetof_b tg in
  fst (read n crc (Param_default n m)) = false ->
  forall k : nat,
    fst (read n crc (Param_default n (boots tg crc (S k) m))) = true /\
    byte.unsigned (boots tg crc (S k) m (Z.of_nat off))
    = Z.of_nat (S k) mod 256.
Proof.
  intros n off Hbad k.
  pose proof (layout_UserData_t tg) as Hoff. fold n off in Hoff.
  induction k as [|k IH].
  - cbn [boots]. split; [apply boot_reads_back|].
    destruct (boot_invalid tg crc m Hbad) as (_ & Eg). fold n off in Eg.
    rewrite (boot_cell tg crc m off Hoff). fold n. rewrite Eg.
    rewrite store_byte_nth_same by (rewrite repeat_length; exact Hoff).
    reflexivity.
  - destruct IH as (Hok & Eb).
    change (boots tg crc (S (S k)) m)
      with (snd (boot tg crc (boots tg crc (S k) m))).
    set (mk := boots tg crc (S k) m) in *.
    split; [apply boot_reads_back|].
    destruct (boot_valid tg crc mk Hok) as (_ & Eg). fold n off in Eg.
    rewrite (boot_cell tg crc mk off Hoff). fold n. rewrite Eg.
    rewrite store_byte_nth_same by (rewrite EEPROM_get_length; exact Hoff).
    rewrite (u8_succ_mod _ (Z.of_nat (S k)) Eb). f_equal. lia.
Qed.

(** X13, every power cycle leaves a valid record: whatever the EEPROM held
    and whatever the checksum function, after [setup()] has run a freshly
    constructed instance reads the record with success. *)
Theorem X13_boot_leaves_valid_record
    (tg : target) (crc : list byte -> byte) (m : EEPROM.t) :
  let n := sizeof_struct tg UserData_t in
  fst (read n crc (Param_default n (snd (boot tg crc m)))) = true.
Proof. apply boot_reads_back. Qed.

(** X14, the power cycle on an EEPROM without a valid record: [setup()]
    reports a reset, prints 0 for [b], and stores the zeroed record with [b]
    set to 1. *)
Theorem X14_boot_without_valid_record
    (tg : target) (crc : list byte -> byte) (m : EEPROM.t) :
  let n := sizeof_struct tg UserData_t in
  fst (read n crc (Param_default n m)) = false ->
  fst (boot tg crc m) = [Empty_line; Parameter_reset; Value_of_b 0] /\
  EEPROM.get (snd (boot tg crc m)) 0 n
  = store_byte (repeat Byte.x00 n) (offsetof_b tg) Byte.x01.
Proof. intros n Hbad. apply boot_invalid. exact Hbad. Qed.

(** X15, the power cycle on a valid record: [setup()] reports a load, prints
    the stored [b], and stores the record back with [b] incremented modulo
    256; apart from the cell of [b] and the checksum cell, no cell of the
    EEPROM changes. *)
Theorem X15_boot_with_valid_record
    (tg : target) (crc : list byte -> byte) (m : EEPROM.t) :
  let n := sizeof_struct tg UserData_t in
  let off := Z.of_nat (offsetof_b tg) in
  let m' := snd (boot tg crc m) in
  fst (read n crc (Param_default n m)) = true ->
  fst (boot tg crc m)
  = [Empty_line; Parameter_loaded; Value_of_b (byte.unsigned (m off))] /\
  byte.unsigned (m' off) = (byte.unsigned (m off) + 1) mod 256 /\
  (forall a, a <> off -> a <> Z.of_nat n -> m' a = m a).
Proof.
  intros n off m' Hok.
  pose proof (layout_UserData_t tg) as Hoff. fold n in Hoff.
  destruct (boot_valid tg crc m Hok) as (Elog & Eg). fold n in Eg.
  destruct (boot_spec tg crc m) as (_ & _ & _ & _ & Hout). fold n in Hout.
  split; [exact Elog|]. split.
  - unfold m', off. rewrite (boot_cell tg crc m _ Hoff). fold n. rewrite Eg.
    rewrite store_byte_nth_same by (rewrite EEPROM_get_length; exact Hoff).
    rewrite byte.unsigned_of_Z. reflexivity.
  - intros a Ha Hn.
    destruct (Z_lt_dec a 0) as [Hlo|Hlo]; [apply Hout; lia|].
    destruct (Z_lt_dec (Z.of_nat n) a) as [Hhi|Hhi]; [apply Hout; lia|].
    assert (Hi : (Z.to_nat a < n)%nat) by lia.
    replace a with (Z.of_nat (Z.to_nat a)) by lia.
    unfold m'. rewrite (boot_cell tg crc m _ Hi). fold n. rewrite Eg.
    rewrite store_byte_nth_other by (unfold off in Ha; lia).
    rewrite (EEPROM_get_nth m n 0 _ Hi). reflexivity.
Qed.

(** X16, [b] counts the power cycles: starting from an EEPROM without a
    valid record, power cycle number [k + 1] prints [k] modulo 256 for [b];
    it reports a reset when [k] is 0 and a load otherwise. *)
Theorem X16_boot_counter
    (tg : target) (crc : list byte -> byte) (m : EEPROM.t) (k : nat) :
  let n := sizeof_struct tg UserData_t in
  fst (read n crc (Param_default n m)) = false ->
  fst (boot tg crc (boots tg crc k m))
  = [Empty_line;
     if Nat.eqb k 0 then Parameter_reset else Parameter_loaded;
     Value_of_b (Z.of_nat k mod 256)].
Proof.
  intros n Hbad. destruct k as [|k].
  - apply (boot_invalid tg crc m Hbad).
  - destruct (boots_counter tg crc m Hbad k) as (Hok & Eb).
    destruct (boot_valid tg crc _ Hok) as (Elog & _).
    rewrite Elog, Eb. reflexivity.
Qed.

(** ** The further properties at concrete inputs *)

Lemma X1_disjoint_instances_independent_witness :
  let s := mkState erased (mkParam [Byte.x12; Byte.x34] 0) in
  let p2 := mkParam [Byte.x00; Byte.x00] 3 in
  is_T 2 (data (this s)) /\
  (addr p2 + Z.of_nat 2 < addr (this s) \/
   addr (this s) + Z.of_nat 2 < addr p2) /\
  (let r0 := read 2 CRC8.calc (mkState (eeprom s) p2) in
   let rw := read 2 CRC8.calc
               (mkState (eeprom (snd (write 2 CRC8.calc s))) p2) in
   let rd := read 2 CRC8.calc (mkState (eeprom (snd (discard 2 s))) p2) in
   (fst rw = fst r0 /\ data (this (snd rw)) = data (this (snd r0))) /\
   (fst rd = fst r0 /\ data (this (snd rd)) = data (this (snd r0)))).
Proof.
  intros s p2.
  assert (H1 : is_T 2 (data (this s))) by reflexivity.
  assert (H2 : addr p2 + Z.of_nat 2 < addr (this s) \/
               addr (this s) + Z.of_nat 2 < addr p2) by (right; reflexivity).
  split; [exact H1|]. split; [exact H2|].
  exact (X1_disjoint_instances_independent 2 CRC8.calc 2 s p2 H1 H2).
Defined.

Lemma X2_spacing_by_sizeof_collides_witness :
  is_T 2 [Byte.x12; Byte.x34] /\ is_T 2 [Byte.x56; Byte.x78] /\ (0 < 2)%nat /\
  (let m1 := eeprom (snd (write 2 CRC8.calc
                            (mkState erased (mkParam [Byte.x12; Byte.x34] 0)))) in
   let m2 := eeprom (snd (write 2 CRC8.calc
                            (mkState m1 (mkParam [Byte.x56; Byte.x78]
                                                 (0 + Z.of_nat 2))))) in
   let r := read 2 CRC8.calc (mkState m2 (mkParam [Byte.x00; Byte.x00] 0)) in
   fst r = eq_u8 (CRC8.calc [Byte.x12; Byte.x34])
                 (nth 0 [Byte.x56; Byte.x78] Byte.x00) /\
   data (this (snd r)) = [Byte.x12; Byte.x34]).
Proof.
  split; [reflexivity|]. split; [reflexivity|]. split; [lia|].
  apply (X2_spacing_by_sizeof_collides 2 CRC8.calc erased 0
           [Byte.x12; Byte.x34] [Byte.x56; Byte.x78] [Byte.x00; Byte.x00]).
  - reflexivity.
  - reflexivity.
  - lia.
Defined.

Lemma X3_addresses_alias_modulo_256_witness :
  is_T 2 [Byte.x12; Byte.x34] /\
  (let s1 := set_data (Param_ctor 2 (10 + 256) erased) [Byte.x12; Byte.x34] in
   let r := read 2 CRC8.calc
              (Param_ctor 2 10 (eeprom (snd (write 2 CRC8.calc s1)))) in
   fst r = true /\ data (this (snd r)) = [Byte.x12; Byte.x34]).
Proof.
  split; [reflexivity|].
  apply (X3_addresses_alias_modulo_256 2 CRC8.calc erased 10
           [Byte.x12; Byte.x34]).
  reflexivity.
Defined.

Lemma X4_write_after_good_read_keeps_medium_witness :
  let s := mkState (eeprom (snd (write 2 CRC8.calc
                                   (mkState erased
                                            (mkParam [Byte.x12; Byte.x34] 10)))))
                   (mkParam [Byte.x00; Byte.x00] 10) in
  fst (read 2 CRC8.calc s) = true /\
  (forall a, eeprom (snd (write 2 CRC8.calc (snd (read 2 CRC8.calc s)))) a
             = eeprom s a).
Proof.
  intros s.
  assert (H : fst (read 2 CRC8.calc s) = true) by (vm_compute; reflexivity).
  split; [exact H|].
  exact (X4_write_after_good_read_keeps_medium 2 CRC8.calc s H).
Defined.

Lemma X5_discard_invalidates_valid_witness :
  let s := mkState (eeprom (snd (write 2 CRC8.calc
                                   (mkState erased
                                            (mkParam [Byte.x12; Byte.x34] 10)))))
                   (mkParam [Byte.x00; Byte.x00] 10) in
  fst (read 2 CRC8.calc s) = true /\
  fst (read 2 CRC8.calc (snd (discard 2 s))) = false.
Proof.
  intros s.
  assert (H : fst (read 2 CRC8.calc s) = true) by (vm_compute; reflexivity).
  split; [exact H|].
  exact (X5_discard_invalidates_valid 2 CRC8.calc s H).
Defined.

Lemma X7_checksum_cell_damage_detected_witness :
  is_T 2 [Byte.x12; Byte.x34] /\
  Byte.x00 <> CRC8.calc [Byte.x12; Byte.x34] /\
  (let s1 := snd (write 2 CRC8.calc
                    (mkState erased (mkParam [Byte.x12; Byte.x34] 10))) in
   fst (read 2 CRC8.calc
          (set_eeprom s1 (EEPROM.write (eeprom s1) (10 + Z.of_nat 2) Byte.x00)))
   = false).
Proof.
  assert (H : Byte.x00 <> CRC8.calc [Byte.x12; Byte.x34])
    by (vm_compute; discriminate).
  split; [reflexivity|]. split; [exact H|].
  apply (X7_checksum_cell_damage_detected 2 CRC8.calc erased 10
           [Byte.x12; Byte.x34] Byte.x00).
  - reflexivity.
  - exact H.
Defined.

Lemma X8_replaced_payload_passes_iff_collision_witness :
  is_T 2 [Byte.x12; Byte.x34] /\ is_T 2 [Byte.x56; Byte.x78] /\
  (let s1 := snd (write 2 CRC8.calc
                    (mkState erased (mkParam [Byte.x12; Byte.x34] 10))) in
   let r := read 2 CRC8.calc
              (set_eeprom s1
                 (EEPROM.put (eeprom s1) 10 [Byte.x56; Byte.x78])) in
   (fst r = true <->
    CRC8.calc [Byte.x56; Byte.x78] = CRC8.calc [Byte.x12; Byte.x34]) /\
   data (this (snd r)) = [Byte.x56; Byte.x78]).
Proof.
  split; [reflexivity|]. split; [reflexivity|].
  apply (X8_replaced_payload_passes_iff_collision 2 CRC8.calc erased 10
           [Byte.x12; Byte.x34] [Byte.x56; Byte.x78]).
  - reflexivity.
  - reflexivity.
Defined.

Lemma X9_calls_stay_on_own_cells_witness :
  let s := mkState erased (mkParam [Byte.x12; Byte.x34] 10) in
  let cs := [Read; Assign [Byte.x01; Byte.x02]; Write; Discard; Clear; Size] in
  is_T 2 (data (this s)) /\ Forall (call_ok 2) cs /\
  addr (this (run 2 CRC8.calc cs s)) = addr (this s) /\
  (forall a, a < addr (this s) \/ addr (this s) + Z.of_nat 2 < a ->
             eeprom (run 2 CRC8.calc cs s) a = eeprom s a).
Proof.
  intros s cs.
  assert (H1 : is_T 2 (data (this s))) by reflexivity.
  assert (H2 : Forall (call_ok 2) cs)
    by (repeat constructor).
  split; [exact H1|]. split; [exact H2|].
  exact (X9_calls_stay_on_own_cells 2 CRC8.calc cs s H1 H2).
Defined.

Lemma X10_cells_above_255_plus_sizeof_unreachable_witness :
  let cs := [Assign [Byte.x01; Byte.x02]; Write; Discard] in
  Forall (call_ok 2) cs /\
  (300 < 0 \/ 255 + Z.of_nat 2 < 300) /\
  eeprom (run 2 CRC8.calc cs (Param_ctor 2 300 erased)) 300 = erased 300.
Proof.
  intros cs.
  assert (H1 : Forall (call_ok 2) cs) by (repeat constructor).
  assert (H2 : 300 < 0 \/ 255 + Z.of_nat 2 < 300) by (right; reflexivity).
  split; [exact H1|]. split; [exact H2|].
  exact (X10_cells_above_255_plus_sizeof_unreachable 2 CRC8.calc 300 erased cs
           300 H1 H2).
Defined.

Lemma X11_valid_after_write_until_discard_witness :
  let s := mkState erased (mkParam [Byte.x12; Byte.x34] 10) in
  let cs1 := [Discard; Assign [Byte.x01; Byte.x02]] in
  let cs2 := [Clear; Read; Assign [Byte.x03; Byte.x04]; Size] in
  is_T 2 (data (this s)) /\
  Forall (call_ok 2) (cs1 ++ Write :: cs2) /\
  existsb is_discard cs2 = false /\
  fst (read 2 CRC8.calc (run 2 CRC8.calc (cs1 ++ Write :: cs2) s)) = true.
Proof.
  intros s cs1 cs2.
  assert (H1 : is_T 2 (data (this s))) by reflexivity.
  assert (H2 : Forall (call_ok 2) (cs1 ++ Write :: cs2))
    by (repeat constructor).
  assert (H3 : existsb is_discard cs2 = false) by reflexivity.
  split; [exact H1|]. split; [exact H2|]. split; [exact H3|].
  exact (X11_valid_after_write_until_discard 2 CRC8.calc cs1 cs2 s H1 H2 H3).
Defined.

Lemma X12_valid_kept_without_discard_witness :
  let s := mkState (eeprom (snd (write 2 CRC8.calc
                                   (mkState erased
                                            (mkParam [Byte.x12; Byte.x34] 10)))))
                   (mkParam [Byte.x00; Byte.x00] 10) in
  let cs := [Clear; Read; Assign [Byte.x03; Byte.x04]; Size; Write] in
  is_T 2 (data (this s)) /\ Forall (call_ok 2) cs /\
  existsb is_discard cs = false /\
  fst (read 2 CRC8.calc s) = true /\
  fst (read 2 CRC8.calc (run 2 CRC8.calc cs s)) = true.
Proof.
  intros s cs.
  assert (H1 : is_T 2 (data (this s))) by reflexivity.
  assert (H2 : Forall (call_ok 2) cs) by (repeat constructor).
  assert (H3 : existsb is_discard cs = false) by reflexivity.
  assert (H4 : fst (read 2 CRC8.calc s) = true) by (vm_compute; reflexivity).
  split; [exact H1|]. split; [exact H2|]. split; [exact H3|].
  split; [exact H4|].
  exact (X12_valid_kept_without_discard 2 CRC8.calc cs s H1 H2 H3 H4).
Defined.

Lemma X14_boot_without_valid_record_witness :
  fst (read 17 CRC8.calc (Param_default 17 erased)) = false /\
  fst (boot AVR8 CRC8.calc erased)
  = [Empty_line; Parameter_reset; Value_of_b 0] /\
  EEPROM.get (snd (boot AVR8 CRC8.calc erased)) 0 17
  = store_byte (repeat Byte.x00 17) 16 Byte.x01.
Proof.
  assert (H : fst (read 17 CRC8.calc (Param_default 17 erased)) = false)
    by (vm_compute; reflexivity).
  split; [exact H|].
  exact (X14_boot_without_valid_record AVR8 CRC8.calc erased H).
Defined.

Lemma X15_boot_with_valid_record_witness :
  let m := snd (boot AVR8 CRC8.calc erased) in
  let m' := snd (boot AVR8 CRC8.calc m) in
  fst (read 17 CRC8.calc (Param_default 17 m)) = true /\
  fst (boot AVR8 CRC8.calc m)
  = [Empty_line; Parameter_loaded; Value_of_b (byte.unsigned (m 16))] /\
  byte.unsigned (m' 16) = (byte.unsigned (m 16) + 1) mod 256 /\
  (forall a, a <> 16 -> a <> 17 -> m' a = m a).
Proof.
  intros m m'.
  assert (H : fst (read 17 CRC8.calc (Param_default 17 m)) = true)
    by (vm_compute; reflexivity).
  split; [exact H|].
  exact (X15_boot_with_valid_record AVR8 CRC8.calc m H).
Defined.

Lemma X16_boot_counter_witness :
  fst (read 17 CRC8.calc (Param_default 17 erased)) = false /\
  fst (boot AVR8 CRC8.calc (boots AVR8 CRC8.calc 300 erased))
  = [Empty_line; Parameter_loaded; Value_of_b 44].
Proof.
  assert (H : fst (read 17 CRC8.calc (Param_default 17 erased)) = false)
    by (vm_compute; reflexivity).
  split; [exact H|].
  exact (X16_boot_counter AVR8 CRC8.calc erased 300 H).
Defined.
